(** * OAuth error taxonomy: a model of [src/server/auth/errors.ts]

    The module declares a base class [OAuthError], sixteen subclasses that
    only fix a static [errorCode], the escape hatch [CustomOAuthError] and the
    table [OAUTH_ERRORS].  Instances and response objects are JavaScript
    objects, so they live in a heap and the methods are written in a small
    state-and-failure monad over it. *)

From stdpp Require Import base option list gmap strings fin_maps.

Open Scope string_scope.
Open Scope list_scope.

(** ** JavaScript values *)

(** The only values the module handles are strings and [undefined]
    (a missing argument, a missing property, an unassigned static). *)
Inductive JsVal : Type :=
  | JsUndefined
  | JsString (s : string).

#[global] Instance JsVal_eq_dec : EqDecision JsVal.
Proof. solve_decision. Defined.

(** ToBoolean: [undefined] and the empty string are falsy. *)
Definition truthy (v : JsVal) : bool :=
  match v with
  | JsUndefined => false
  | JsString EmptyString => false
  | JsString (String _ _) => true
  end.

(** ToPropertyKey, used by the computed keys of an object literal. *)
Definition to_property_key (v : JsVal) : string :=
  match v with
  | JsUndefined => "undefined"
  | JsString s => s
  end.

(** The i-th actual argument of a call; a missing one reads [undefined]. *)
Definition arg (args : list JsVal) (i : nat) : JsVal :=
  default JsUndefined (args !! i).

(** An object literal [{k1: v1, ..., kn: vn}]: properties are defined from
    left to right, a later one replacing an earlier one with the same key. *)
Definition object_literal {V : Type} (entries : list (string * V)) : gmap string V :=
  foldl (λ o kv, <[kv.1 := kv.2]> o) ∅ entries.

(** ** Classes *)

(** The sixteen subclasses whose body is [static errorCode = "..."]. *)
Inductive StandardVariant : Type :=
  | InvalidRequestError
  | InvalidClientError
  | InvalidGrantError
  | UnauthorizedClientError
  | UnsupportedGrantTypeError
  | InvalidScopeError
  | AccessDeniedError
  | ServerError
  | TemporarilyUnavailableError
  | UnsupportedResponseTypeError
  | UnsupportedTokenTypeError
  | InvalidTokenError
  | MethodNotAllowedError
  | TooManyRequestsError
  | InvalidClientMetadataError
  | InsufficientScopeError.

#[global] Instance StandardVariant_eq_dec : EqDecision StandardVariant.
Proof. solve_decision. Defined.

(** In declaration order. *)
Definition standard_variants : list StandardVariant :=
  [ InvalidRequestError; InvalidClientError; InvalidGrantError;
    UnauthorizedClientError; UnsupportedGrantTypeError; InvalidScopeError;
    AccessDeniedError; ServerError; TemporarilyUnavailableError;
    UnsupportedResponseTypeError; UnsupportedTokenTypeError; InvalidTokenError;
    MethodNotAllowedError; TooManyRequestsError; InvalidClientMetadataError;
    InsufficientScopeError ].

(** The value each subclass assigns to its own static [errorCode]. *)
Definition variant_errorCode (V : StandardVariant) : string :=
  match V with
  | InvalidRequestError => "invalid_request"
  | InvalidClientError => "invalid_client"
  | InvalidGrantError => "invalid_grant"
  | UnauthorizedClientError => "unauthorized_client"
  | UnsupportedGrantTypeError => "unsupported_grant_type"
  | InvalidScopeError => "invalid_scope"
  | AccessDeniedError => "access_denied"
  | ServerError => "server_error"
  | TemporarilyUnavailableError => "temporarily_unavailable"
  | UnsupportedResponseTypeError => "unsupported_response_type"
  | UnsupportedTokenTypeError => "unsupported_token_type"
  | InvalidTokenError => "invalid_token"
  | MethodNotAllowedError => "method_not_allowed"
  | TooManyRequestsError => "too_many_requests"
  | InvalidClientMetadataError => "invalid_client_metadata"
  | InsufficientScopeError => "insufficient_scope"
  end.

Definition variant_name (V : StandardVariant) : string :=
  match V with
  | InvalidRequestError => "InvalidRequestError"
  | InvalidClientError => "InvalidClientError"
  | InvalidGrantError => "InvalidGrantError"
  | UnauthorizedClientError => "UnauthorizedClientError"
  | UnsupportedGrantTypeError => "UnsupportedGrantTypeError"
  | InvalidScopeError => "InvalidScopeError"
  | AccessDeniedError => "AccessDeniedError"
  | ServerError => "ServerError"
  | TemporarilyUnavailableError => "TemporarilyUnavailableError"
  | UnsupportedResponseTypeError => "UnsupportedResponseTypeError"
  | UnsupportedTokenTypeError => "UnsupportedTokenTypeError"
  | InvalidTokenError => "InvalidTokenError"
  | MethodNotAllowedError => "MethodNotAllowedError"
  | TooManyRequestsError => "TooManyRequestsError"
  | InvalidClientMetadataError => "InvalidClientMetadataError"
  | InsufficientScopeError => "InsufficientScopeError"
  end.

(** Every class of the module: the base, a standard subclass, the custom one. *)
Inductive Class : Type :=
  | OAuthError
  | Std (V : StandardVariant)
  | CustomOAuthError.

#[global] Instance Class_eq_dec : EqDecision Class.
Proof. solve_decision. Defined.

(** [C.name] *)
Definition class_name (C : Class) : string :=
  match C with
  | OAuthError => "OAuthError"
  | Std V => variant_name V
  | CustomOAuthError => "CustomOAuthError"
  end.

(** [C.errorCode], the static property.  [OAuthError] declares it
    ([static errorCode: string;]) without a value; [CustomOAuthError] has none
    of its own and inherits the base's. *)
Definition static_errorCode (C : Class) : JsVal :=
  match C with
  | OAuthError => JsUndefined
  | Std V => JsString (variant_errorCode V)
  | CustomOAuthError => JsUndefined
  end.

(** ** Heap objects *)

(** An error instance: the class it was built by ([this.constructor]), the
    fields of [Error] and [OAuthError], and the private field that only
    [CustomOAuthError] assigns. *)
Record ErrorObj : Type := mkErrorObj {
  constructor_ : Class;
  name : string;
  message : string;
  errorUri : JsVal;
  customErrorCode : JsVal
}.

Definition set_name (n : string) (e : ErrorObj) : ErrorObj :=
  mkErrorObj (constructor_ e) n (message e) (errorUri e) (customErrorCode e).

Definition set_errorUri (u : JsVal) (e : ErrorObj) : ErrorObj :=
  mkErrorObj (constructor_ e) (name e) (message e) u (customErrorCode e).

Definition set_customErrorCode (c : JsVal) (e : ErrorObj) : ErrorObj :=
  mkErrorObj (constructor_ e) (name e) (message e) (errorUri e) c.

(** A heap cell is an error instance or a plain object (a response); a key
    that is not in [props] is a property the object does not have. *)
Inductive Obj : Type :=
  | ErrorInst (e : ErrorObj)
  | Plain (props : gmap string JsVal).

(** References are indices into the heap; allocation appends. *)
Definition M (A : Type) : Type := list Obj → option (A * list Obj).

#[global] Instance M_ret : MRet M := λ A a h, Some (a, h).

#[global] Instance M_bind : MBind M := λ A B f m h,
  match m h with
  | Some (a, h') => f a h'
  | None => None
  end.

Definition alloc (o : Obj) : M nat :=
  λ h, Some (List.length h, h ++ [o]).

(** Reading or writing through a reference that does not hold an object of
    the expected kind is stuck ([None]). *)
Definition read_error (l : nat) : M ErrorObj :=
  λ h, match h !! l with
       | Some (ErrorInst e) => Some (e, h)
       | _ => None
       end.

Definition write_error (l : nat) (f : ErrorObj → ErrorObj) : M unit :=
  λ h, match h !! l with
       | Some (ErrorInst e) => Some (tt, <[l := ErrorInst (f e)]> h)
       | _ => None
       end.

(** The own properties of a plain object after [o[k] = v].  Every key
    becomes an own property, except ["__proto__"]: that assignment goes to
    the setter inherited from [Object.prototype], which does nothing when
    the value is not an object or [null], and a [JsVal] never is. *)
Definition assign_prop (k : string) (v : JsVal) (props : gmap string JsVal)
    : gmap string JsVal :=
  if bool_decide (k = "__proto__") then props else <[k := v]> props.

Definition set_prop (l : nat) (k : string) (v : JsVal) : M unit :=
  λ h, match h !! l with
       | Some (Plain props) => Some (tt, <[l := Plain (assign_prop k v props)]> h)
       | _ => None
       end.

(** ** Constructors *)

(** What [this.message] reads after [super(message)]: the argument, or
    [""] from [Error.prototype] when it is [undefined]. *)
Definition Error_message (message : JsVal) : string :=
  match message with
  | JsUndefined => ""
  | JsString s => s
  end.

(** [super(message)] in [OAuthError]: the built-in [Error] constructor run
    for class [C].  [name] reads ["Error"] until it is assigned. *)
Definition Error_constructor (C : Class) (message : JsVal) : M nat :=
  alloc (ErrorInst (mkErrorObj C "Error" (Error_message message)
                      JsUndefined JsUndefined)).

(** [constructor(message: string, public readonly errorUri?: string)]:
    [super(message)], the parameter property, then
    [this.name = this.constructor.name]. *)
Definition OAuthError_constructor (C : Class) (message errorUri : JsVal) : M nat :=
  this ← Error_constructor C message;
  write_error this (set_errorUri errorUri);;
  e ← read_error this;
  write_error this (set_name (class_name (constructor_ e)));;
  mret this.

(** [constructor(private readonly customErrorCode: string, message: string,
    errorUri?: string) { super(message, errorUri); }] *)
Definition CustomOAuthError_constructor (customErrorCode message errorUri : JsVal) : M nat :=
  this ← OAuthError_constructor CustomOAuthError message errorUri;
  write_error this (set_customErrorCode customErrorCode);;
  mret this.

(** [new C(...args)].  The base and the sixteen subclasses run the base
    constructor (a subclass without a constructor forwards its arguments). *)
Definition construct (C : Class) (args : list JsVal) : M nat :=
  match C with
  | CustomOAuthError =>
      CustomOAuthError_constructor (arg args 0) (arg args 1) (arg args 2)
  | _ => OAuthError_constructor C (arg args 0) (arg args 1)
  end.

(** ** Methods *)

(** [get errorCode()].  [CustomOAuthError] overrides the getter with
    [return this.customErrorCode]; every other class uses the base's
    [return (this.constructor as typeof OAuthError).errorCode]. *)
Definition errorCode (this : nat) : M JsVal :=
  e ← read_error this;
  match constructor_ e with
  | CustomOAuthError => mret (customErrorCode e)
  | C => mret (static_errorCode C)
  end.

(** [toResponseObject()] *)
Definition toResponseObject (this : nat) : M nat :=
  code ← errorCode this;
  e ← read_error this;
  response ← alloc (Plain (object_literal
                [("error", code); ("error_description", JsString (message e))]));
  e ← read_error this;
  (if truthy (errorUri e)
   then e ← read_error this; set_prop response "error_uri" (errorUri e)
   else mret tt);;
  mret response.

(** ** The table *)

(** One line [[C.errorCode]: C] of the literal. *)
Definition entry (C : Class) : string * Class :=
  (to_property_key (static_errorCode C), C).

Definition OAUTH_ERRORS_literal : list (string * Class) :=
  [ entry (Std InvalidRequestError);
    entry (Std InvalidClientError);
    entry (Std InvalidGrantError);
    entry (Std UnauthorizedClientError);
    entry (Std UnsupportedGrantTypeError);
    entry (Std InvalidScopeError);
    entry (Std AccessDeniedError);
    entry (Std ServerError);
    entry (Std TemporarilyUnavailableError);
    entry (Std UnsupportedResponseTypeError);
    entry (Std UnsupportedTokenTypeError);
    entry (Std InvalidTokenError);
    entry (Std MethodNotAllowedError);
    entry (Std TooManyRequestsError);
    entry (Std InvalidClientMetadataError);
    entry (Std InsufficientScopeError) ].

(** The own properties of the table. *)
Definition OAUTH_ERRORS : gmap string Class :=
  object_literal OAUTH_ERRORS_literal.

(** The table is a plain object, so it inherits from [Object.prototype].
    These are the property names of [Object.prototype] (ECMAScript 20.1.3
    and B.2.2). *)
Definition Object_prototype_keys : list string :=
  [ "constructor"; "hasOwnProperty"; "isPrototypeOf"; "propertyIsEnumerable";
    "toLocaleString"; "toString"; "valueOf"; "__proto__";
    "__defineGetter__"; "__defineSetter__";
    "__lookupGetter__"; "__lookupSetter__" ].

(** What reading a property of the table can give: a class of the module,
    a member inherited from [Object.prototype], or [undefined]. *)
Inductive Member : Type :=
  | MClass (C : Class)
  | MInherited (k : string)
  | MUndefined.

(** [OAUTH_ERRORS[k]]: an own property first, then the prototype. *)
Definition OAUTH_ERRORS_get (k : string) : Member :=
  match OAUTH_ERRORS !! k with
  | Some C => MClass C
  | None =>
      if bool_decide (k ∈ Object_prototype_keys) then MInherited k else MUndefined
  end.

(** ** Call sites *)

(** The actual arguments of [new C(m)] and [new C(m, u)]. *)
Definition call_args (m : string) (u : option string) : list JsVal :=
  JsString m :: match u with
                | Some s => [JsString s]
                | None => []
                end.

(** Reading [o.k] on a plain object with properties [props]: a property
    the object does not have reads [undefined]. *)
Definition property (props : gmap string JsVal) (k : string) : JsVal :=
  default JsUndefined (props !! k).

(** Modelled from the spec: the shape of [OAuthErrorResponse] (section 3;
    the type is imported from shared/auth.js): a string [error], a string
    [error_description], an optional string [error_uri], nothing else. *)
Definition well_formed_response (props : gmap string JsVal) : bool :=
  match props !! "error", props !! "error_description" with
  | Some (JsString _), Some (JsString _) =>
      match props !! "error_uri" with
      | None | Some (JsString _) => true
      | Some JsUndefined => false
      end
  | _, _ => false
  end
  && bool_decide (dom props ⊆ ({["error"; "error_description"; "error_uri"]} : gset string)).

(** A condition as the callers build one: a standard subclass from
    [(message, uri?)], or the custom class from [(code, message, uri?)]. *)
Inductive Condition : Type :=
  | Standard (V : StandardVariant)
  | Custom (code : string).

Definition new_condition (k : Condition) (m : string) (u : option string) : M nat :=
  match k with
  | Standard V => construct (Std V) (call_args m u)
  | Custom c => construct CustomOAuthError (JsString c :: call_args m u)
  end.

(** An instance as [new InvalidGrantError("refresh token expired")]
    leaves it. *)
Definition expired_grant : ErrorObj :=
  mkErrorObj (Std InvalidGrantError) "InvalidGrantError"
    "refresh token expired" JsUndefined JsUndefined.

(** ** What the operations compute, as functions of the instance *)

(** The value [this.errorCode] reads on instance [e]. *)
Definition code_of (e : ErrorObj) : JsVal :=
  match constructor_ e with
  | CustomOAuthError => customErrorCode e
  | C => static_errorCode C
  end.

(** The properties of the object [toResponseObject] returns for [e]. *)
Definition response_of (e : ErrorObj) : gmap string JsVal :=
  let response :=
    object_literal [("error", code_of e); ("error_description", JsString (message e))] in
  if truthy (errorUri e) then <["error_uri" := errorUri e]> response else response.

(** The instance [new C(...args)] allocates. *)
Definition instance_of (C : Class) (args : list JsVal) : ErrorObj :=
  match C with
  | CustomOAuthError =>
      mkErrorObj C (class_name C) (Error_message (arg args 1)) (arg args 2) (arg args 0)
  | _ =>
      mkErrorObj C (class_name C) (Error_message (arg args 0)) (arg args 1) JsUndefined
  end.

(** ** Further vocabulary *)

(** The actual arguments of a well-typed [new C(...)]: the custom class
    takes its code first. *)
Definition class_args (C : Class) (c m : string) (u : option string) : list JsVal :=
  match C with
  | CustomOAuthError => JsString c :: call_args m u
  | _ => call_args m u
  end.

(** The code a condition is built with. *)
Definition condition_code (k : Condition) : string :=
  match k with
  | Standard V => variant_errorCode V
  | Custom c => c
  end.

(** The uri that passes the test [if (this.errorUri)]: an omitted or an
    empty one does not. *)
Definition effective_uri (u : option string) : option string :=
  match u with
  | Some (String a s) => Some (String a s)
  | _ => None
  end.

(** The three keys [toResponseObject] may define. *)
Definition response_keys : gset string :=
  {["error"; "error_description"; "error_uri"]}.

(** Incoming response objects used as examples. *)
Definition expired_grant_wire : gmap string JsVal :=
  <["error_description" := JsString "refresh token expired"]>
    (<["error" := JsString "invalid_grant"]> ∅).

Definition empty_uri_wire : gmap string JsVal :=
  <["error_uri" := JsString ""]> expired_grant_wire.

(** An instance as [new CustomOAuthError("invalid_grant",
    "refresh token expired", "")] leaves it. *)
Definition custom_invalid_grant : ErrorObj :=
  mkErrorObj CustomOAuthError "CustomOAuthError"
    "refresh token expired" (JsString "") (JsString "invalid_grant").

Definition foo_bar_wire : gmap string JsVal :=
  <["error_uri" := JsString "https://example.com/foo"]>
    (<["error_description" := JsString "something odd"]>
       (<["error" := JsString "foo_bar"]> ∅)).

(** * Proofs *)

(** ** The heap *)

Section heap.
Implicit Types (h : list Obj) (o : Obj) (l : nat).

Lemma lookup_fresh h o : (h ++ [o]) !! List.length h = Some o.
Proof. by apply list_lookup_middle. Qed.

Lemma lookup_old h o l x : h !! l = Some x → (h ++ [o]) !! l = Some x.
Proof. apply lookup_app_l_Some. Qed.

Lemma insert_fresh h o o' : <[List.length h := o']> (h ++ [o]) = h ++ [o'].
Proof.
  rewrite insert_app_r_alt by lia.
  by replace (List.length h - List.length h) with 0 by lia.
Qed.

Lemma old_not_fresh h l x : h !! l = Some x → l ≠ List.length h.
Proof. intros Hl%lookup_lt_Some. lia. Qed.
End heap.

(** ** Running the monad *)

Lemma bind_run {A B} (m : M A) (f : A → M B) h a h' :
  m h = Some (a, h') → (m ≫= f) h = f a h'.
Proof. unfold mbind, M_bind. by intros ->. Qed.

Lemma alloc_run o h : alloc o h = Some (List.length h, h ++ [o]).
Proof. done. Qed.

Lemma read_error_run h l e :
  h !! l = Some (ErrorInst e) → read_error l h = Some (e, h).
Proof. unfold read_error. by intros ->. Qed.

Lemma write_error_fresh h e f :
  write_error (List.length h) f (h ++ [ErrorInst e])
  = Some (tt, h ++ [ErrorInst (f e)]).
Proof. unfold write_error. by rewrite lookup_fresh, insert_fresh. Qed.

Lemma set_prop_fresh h props k v :
  set_prop (List.length h) k v (h ++ [Plain props])
  = Some (tt, h ++ [Plain (assign_prop k v props)]).
Proof. unfold set_prop. by rewrite lookup_fresh, insert_fresh. Qed.

(** ** The operations *)

Lemma OAuthError_constructor_run C m u h :
  OAuthError_constructor C m u h
  = Some (List.length h,
          h ++ [ErrorInst (mkErrorObj C (class_name C) (Error_message m) u JsUndefined)]).
Proof.
  unfold OAuthError_constructor, Error_constructor.
  rewrite (bind_run _ _ h _ _ (alloc_run _ h)).
  rewrite (bind_run _ _ _ _ _ (write_error_fresh h _ _)).
  rewrite (bind_run _ _ _ _ _ (read_error_run _ _ _ (lookup_fresh h _))).
  by rewrite (bind_run _ _ _ _ _ (write_error_fresh h _ _)).
Qed.

Lemma CustomOAuthError_constructor_run c m u h :
  CustomOAuthError_constructor c m u h
  = Some (List.length h,
          h ++ [ErrorInst (mkErrorObj CustomOAuthError "CustomOAuthError"
                             (Error_message m) u c)]).
Proof.
  unfold CustomOAuthError_constructor.
  rewrite (bind_run _ _ h _ _ (OAuthError_constructor_run _ _ _ h)).
  by rewrite (bind_run _ _ _ _ _ (write_error_fresh h _ _)).
Qed.

Lemma construct_run C args h :
  construct C args h = Some (List.length h, h ++ [ErrorInst (instance_of C args)]).
Proof.
  destruct C; simpl.
  - apply OAuthError_constructor_run.
  - apply OAuthError_constructor_run.
  - apply CustomOAuthError_constructor_run.
Qed.

Lemma errorCode_run h this e :
  h !! this = Some (ErrorInst e) → errorCode this h = Some (code_of e, h).
Proof.
  intros Hthis. unfold errorCode.
  rewrite (bind_run _ _ _ _ _ (read_error_run _ _ _ Hthis)).
  unfold code_of. by destruct (constructor_ e).
Qed.

Lemma toResponseObject_run h this e :
  h !! this = Some (ErrorInst e) →
  toResponseObject this h = Some (List.length h, h ++ [Plain (response_of e)]).
Proof.
  intros Hthis. unfold toResponseObject.
  rewrite (bind_run _ _ _ _ _ (errorCode_run _ _ _ Hthis)).
  rewrite (bind_run _ _ _ _ _ (read_error_run _ _ _ Hthis)).
  rewrite (bind_run _ _ _ _ _ (alloc_run _ h)).
  pose proof (lookup_old _ (Plain (object_literal
    [("error", code_of e); ("error_description", JsString (message e))])) _ _ Hthis) as Hthis'.
  rewrite (bind_run _ _ _ _ _ (read_error_run _ _ _ Hthis')).
  unfold response_of. destruct (truthy (errorUri e)).
  - erewrite (bind_run (_ ≫= _)); [done |].
    rewrite (bind_run _ _ _ _ _ (read_error_run _ _ _ Hthis')).
    exact (set_prop_fresh _ _ "error_uri" _).
  - done.
Qed.

(** ** Object literals and the table *)

Lemma foldl_insert_union {V} (l : list (string * V)) (o : gmap string V) :
  NoDup l.*1 →
  foldl (λ o kv, <[kv.1 := kv.2]> o) o l = list_to_map l ∪ o.
Proof.
  revert o. induction l as [|[k v] l IH]; intros o Hnd; simpl.
  - by rewrite (left_id_L ∅ (∪)).
  - apply NoDup_cons in Hnd as [Hk Hnd].
    rewrite IH by done.
    rewrite <-insert_union_l.
    by rewrite insert_union_r by by apply not_elem_of_list_to_map_1.
Qed.

Lemma object_literal_NoDup {V} (l : list (string * V)) :
  NoDup l.*1 → object_literal l = list_to_map l.
Proof.
  intros Hnd. unfold object_literal.
  by rewrite foldl_insert_union, (right_id_L ∅ (∪)).
Qed.

Lemma literal_keys :
  OAUTH_ERRORS_literal.*1 = variant_errorCode <$> standard_variants.
Proof. reflexivity. Qed.

Lemma standard_codes_NoDup : NoDup (variant_errorCode <$> standard_variants).
Proof. apply (bool_decide_unpack _). by vm_compute. Qed.

Lemma standard_variants_complete V : V ∈ standard_variants.
Proof. unfold standard_variants. destruct V; set_solver. Qed.

Lemma OAUTH_ERRORS_list : OAUTH_ERRORS = list_to_map OAUTH_ERRORS_literal.
Proof.
  apply object_literal_NoDup. rewrite literal_keys. apply standard_codes_NoDup.
Qed.

Lemma OAUTH_ERRORS_hit V : OAUTH_ERRORS !! variant_errorCode V = Some (Std V).
Proof. destruct V; by vm_compute. Qed.

Lemma OAUTH_ERRORS_miss s :
  s ∉ variant_errorCode <$> standard_variants → OAUTH_ERRORS !! s = None.
Proof.
  intros Hs. rewrite OAUTH_ERRORS_list.
  apply not_elem_of_list_to_map_1. by rewrite literal_keys.
Qed.

Lemma OAUTH_ERRORS_get_outside s :
  s ∉ variant_errorCode <$> standard_variants →
  OAUTH_ERRORS_get s
  = if bool_decide (s ∈ Object_prototype_keys) then MInherited s else MUndefined.
Proof. intros Hs. unfold OAUTH_ERRORS_get. by rewrite OAUTH_ERRORS_miss. Qed.

(** ** The serialized object *)

Lemma response_of_error e : response_of e !! "error" = Some (code_of e).
Proof. unfold response_of. destruct (truthy (errorUri e)); by simplify_map_eq. Qed.

Lemma response_of_description e :
  response_of e !! "error_description" = Some (JsString (message e)).
Proof. unfold response_of. destruct (truthy (errorUri e)); by simplify_map_eq. Qed.

Lemma response_of_uri e :
  response_of e !! "error_uri"
  = if truthy (errorUri e) then Some (errorUri e) else None.
Proof. unfold response_of. destruct (truthy (errorUri e)); by simplify_map_eq. Qed.

Lemma response_of_dom e :
  dom (response_of e) ⊆ ({["error"; "error_description"; "error_uri"]} : gset string).
Proof.
  unfold response_of, object_literal. simpl.
  destruct (truthy (errorUri e)); rewrite ?dom_insert_L, dom_empty_L;
    set_unfold; tauto.
Qed.

Lemma response_of_well_formed e c :
  code_of e = JsString c → well_formed_response (response_of e) = true.
Proof.
  intros Hc. unfold well_formed_response.
  rewrite response_of_error, response_of_description, response_of_uri, Hc.
  rewrite (bool_decide_eq_true_2 _ (response_of_dom e)).
  by destruct (errorUri e) as [|[|]].
Qed.

(** Constructing and serializing in one go. *)
Lemma serialize_run C args h :
  (construct C args ≫= toResponseObject) h
  = Some (S (List.length h),
          (h ++ [ErrorInst (instance_of C args)])
            ++ [Plain (response_of (instance_of C args))]).
Proof.
  rewrite (bind_run _ _ _ _ _ (construct_run C args h)).
  rewrite (toResponseObject_run _ _ _ (lookup_fresh h _)).
  by rewrite length_app, Nat.add_1_r.
Qed.

Lemma lookup_serialized (h : list Obj) o o' : ((h ++ [o]) ++ [o']) !! S (List.length h) = Some o'.
Proof. apply list_lookup_middle. by rewrite length_app, Nat.add_1_r. Qed.

Lemma new_condition_run k m u h :
  ∃ e, new_condition k m u h = Some (List.length h, h ++ [ErrorInst e]) ∧
       code_of e = match k with
                   | Standard V => JsString (variant_errorCode V)
                   | Custom c => JsString c
                   end ∧
       message e = m ∧
       errorUri e = from_option JsString JsUndefined u.
Proof.
  destruct k; unfold new_condition; rewrite construct_run; eexists;
    (split; [done |]); by destruct u.
Qed.

(** * Properties of the specification *)

(** C1: for every standard variant [V], message [m] and optional uri [u],
    constructing [V] from [m] (and [u]) and serializing it succeeds, and the
    returned object has [error] equal to [V]'s static code and
    [error_description] equal to [m]. *)
Theorem standard_response_error_and_description
    (V : StandardVariant) (m : string) (u : option string) (h : list Obj) :
  ∃ r h' props,
    (construct (Std V) (call_args m u) ≫= toResponseObject) h = Some (r, h') ∧
    h' !! r = Some (Plain props) ∧
    static_errorCode (Std V) = JsString (variant_errorCode V) ∧
    props !! "error" = Some (JsString (variant_errorCode V)) ∧
    props !! "error_description" = Some (JsString m).
Proof.
  eexists _, _, _.
  split; [apply serialize_run |].
  split; [apply lookup_serialized |].
  split; [done |].
  by rewrite response_of_error, response_of_description.
Qed.

(** C3: for each of the sixteen standard variants [V], the table has an
    entry under [V]'s code, and the class found there, constructed from any
    message (and optional uri), is an instance whose [errorCode] reads [V]'s
    code. *)
Theorem registry_lookup_standard
    (V : StandardVariant) (m : string) (u : option string) (h : list Obj) :
  ∃ C e h',
    OAUTH_ERRORS !! variant_errorCode V = Some C ∧
    construct C (call_args m u) h = Some (e, h') ∧
    errorCode e h' = Some (JsString (variant_errorCode V), h').
Proof.
  eexists _, _, _.
  split; [apply OAUTH_ERRORS_hit |].
  split; [apply construct_run |].
  by rewrite (errorCode_run _ _ _ (lookup_fresh h _)).
Qed.

(** C4 as stated fails at ["constructor"]: it is none of the sixteen
    codes, yet [OAUTH_ERRORS["constructor"]] is not [undefined], because the
    table inherits that property from [Object.prototype]. *)
Lemma registry_lookup_constructor_inherited :
  ¬ (("constructor" ∉ variant_errorCode <$> standard_variants) →
     OAUTH_ERRORS_get "constructor" = MUndefined).
Proof.
  intros Hclaim.
  assert ("constructor" ∉ variant_errorCode <$> standard_variants) as Hs.
  { apply (bool_decide_unpack _). vm_compute. exact I. }
  specialize (Hclaim Hs). vm_compute in Hclaim. discriminate Hclaim.
Qed.

(** C4, amended: a string that is none of the sixteen standard codes is
    not a key of the table itself, and reading it from the table gives
    [undefined], the explicit not-found value, unless the string names a
    property inherited from [Object.prototype]; then the read gives that
    inherited member, which is none of the module's classes.  The read is a
    total function: it never throws. *)
Theorem registry_lookup_outside_codes (s : string) :
  s ∉ variant_errorCode <$> standard_variants →
  OAUTH_ERRORS !! s = None ∧
  OAUTH_ERRORS_get s
  = if bool_decide (s ∈ Object_prototype_keys) then MInherited s else MUndefined.
Proof.
  intros Hs. split; [by apply OAUTH_ERRORS_miss |].
  by apply OAUTH_ERRORS_get_outside.
Qed.

Lemma registry_lookup_outside_codes_witness :
  ("foo_bar" ∉ variant_errorCode <$> standard_variants) ∧
  OAUTH_ERRORS !! "foo_bar" = None ∧
  OAUTH_ERRORS_get "foo_bar" = MUndefined.
Proof.
  assert ("foo_bar" ∉ variant_errorCode <$> standard_variants) as Hs.
  { apply (bool_decide_unpack _). vm_compute. exact I. }
  split; [exact Hs |].
  exact (registry_lookup_outside_codes "foo_bar" Hs).
Defined.

(** C6: the sixteen standard codes are pairwise distinct (as a set they
    have sixteen elements), and the table is a bijection on them: the keys
    the literal writes are exactly the sixteen codes, each once, the table's
    domain is that set, and a key maps to a class exactly when it is the
    code of that standard variant. *)
Theorem standard_codes_distinct_registry_bijective :
  (∀ V, V ∈ standard_variants) ∧
  List.length standard_variants = 16 ∧
  (∀ V W, variant_errorCode V = variant_errorCode W → V = W) ∧
  size (list_to_set (variant_errorCode <$> standard_variants) : gset string) = 16 ∧
  OAUTH_ERRORS_literal.*1 = variant_errorCode <$> standard_variants ∧
  NoDup (OAUTH_ERRORS_literal.*1) ∧
  dom OAUTH_ERRORS = list_to_set (variant_errorCode <$> standard_variants) ∧
  size OAUTH_ERRORS = 16 ∧
  (∀ k C, OAUTH_ERRORS !! k = Some C ↔ ∃ V, k = variant_errorCode V ∧ C = Std V).
Proof.
  split; [apply standard_variants_complete |].
  split; [done |].
  split; [by intros [] [] |].
  split; [by vm_compute |].
  split; [apply literal_keys |].
  split; [rewrite literal_keys; apply standard_codes_NoDup |].
  split; [by rewrite OAUTH_ERRORS_list, dom_list_to_map_L, literal_keys |].
  split; [by vm_compute |].
  intros k C. split.
  - rewrite OAUTH_ERRORS_list. intros Hin%elem_of_list_to_map_2.
    change OAUTH_ERRORS_literal
      with ((λ V, entry (Std V)) <$> standard_variants) in Hin.
    apply list_elem_of_fmap in Hin as (V & [= -> ->] & _). by exists V.
  - intros (V & -> & ->). apply OAUTH_ERRORS_hit.
Qed.

(** C7: for every string [c], message [m] and optional uri [u], the
    custom condition built from [(c, m, u)] reads [c] as its [errorCode],
    and its serialized object has [error] equal to [c]. *)
Theorem custom_code_verbatim
    (c m : string) (u : option string) (h : list Obj) :
  ∃ e h0 r h1 props,
    construct CustomOAuthError (JsString c :: call_args m u) h = Some (e, h0) ∧
    errorCode e h0 = Some (JsString c, h0) ∧
    toResponseObject e h0 = Some (r, h1) ∧
    h1 !! r = Some (Plain props) ∧
    props !! "error" = Some (JsString c).
Proof.
  eexists _, _, _, _, _.
  split; [apply construct_run |].
  split; [by rewrite (errorCode_run _ _ _ (lookup_fresh h _)) |].
  split; [apply (toResponseObject_run _ _ _ (lookup_fresh h _)) |].
  split; [apply lookup_fresh |].
  by rewrite response_of_error.
Qed.

(** C10: constructing the base class [OAuthError] itself gives an
    instance whose [errorCode] is [undefined], because the base's static
    [errorCode] has no value; the serialized object then carries
    [error: undefined], which is not a string, so the object is not a
    well-formed response. *)
Theorem base_class_code_undefined
    (m : string) (u : option string) (h : list Obj) :
  ∃ e h0 r h1 props,
    static_errorCode OAuthError = JsUndefined ∧
    construct OAuthError (call_args m u) h = Some (e, h0) ∧
    errorCode e h0 = Some (JsUndefined, h0) ∧
    toResponseObject e h0 = Some (r, h1) ∧
    h1 !! r = Some (Plain props) ∧
    props !! "error" = Some JsUndefined ∧
    well_formed_response props = false.
Proof.
  eexists _, _, _, _, _.
  split; [done |].
  split; [apply construct_run |].
  split; [by rewrite (errorCode_run _ _ _ (lookup_fresh h _)) |].
  split; [apply (toResponseObject_run _ _ _ (lookup_fresh h _)) |].
  split; [apply lookup_fresh |].
  split; [by rewrite response_of_error |].
  unfold well_formed_response. by rewrite response_of_error.
Qed.

(** Two instances that agree on what the serializer reads serialize alike. *)
Lemma response_of_ext e e' :
  code_of e = code_of e' →
  message e = message e' →
  (if truthy (errorUri e) then errorUri e else JsUndefined)
  = (if truthy (errorUri e') then errorUri e' else JsUndefined) →
  response_of e = response_of e'.
Proof.
  unfold response_of. intros -> -> Huri.
  destruct (errorUri e) as [|[|]], (errorUri e') as [|[|]]; simplify_eq/=; done.
Qed.

(** C2: round trip.  A standard variant [V] built from [m] (and [u]) is
    serialized; the [error] field of the object is looked up in the table;
    the class found is constructed from the object's [error_description] and
    [error_uri]; serializing that instance gives an object with the same
    properties as the first one, which has not changed meanwhile. *)
Theorem standard_roundtrip
    (V : StandardVariant) (m : string) (u : option string) (h : list Obj) :
  ∃ e h0 r h1 props C e' h2 r' h3,
    construct (Std V) (call_args m u) h = Some (e, h0) ∧
    toResponseObject e h0 = Some (r, h1) ∧
    h1 !! r = Some (Plain props) ∧
    OAUTH_ERRORS !! to_property_key (property props "error") = Some C ∧
    construct C [property props "error_description"; property props "error_uri"] h1
    = Some (e', h2) ∧
    toResponseObject e' h2 = Some (r', h3) ∧
    h3 !! r = Some (Plain props) ∧
    h3 !! r' = Some (Plain props).
Proof.
  eexists _, _, _, _, _, _, _, _, _, _.
  split; [apply construct_run |].
  split; [apply (toResponseObject_run _ _ _ (lookup_fresh h _)) |].
  split; [apply lookup_fresh |].
  split.
  { unfold property. rewrite response_of_error. apply OAUTH_ERRORS_hit. }
  split; [apply construct_run |].
  split; [apply (toResponseObject_run _ _ _ (lookup_fresh _ _)) |].
  split; [do 2 apply lookup_old; apply lookup_fresh |].
  rewrite lookup_fresh. do 2 f_equal.
  unfold property. rewrite response_of_description, response_of_uri.
  apply response_of_ext; [done | done |].
  by destruct u as [[|]|].
Qed.

(** C5 as stated fails when the uri supplied is the empty string: the
    serialized object of [new InvalidRequestError("m", "")] has no
    [error_uri] key, although a uri was supplied. *)
Lemma error_uri_empty_string_dropped :
  ¬ ∃ r h' props,
      (new_condition (Standard InvalidRequestError) "m" (Some "")
         ≫= toResponseObject) [] = Some (r, h') ∧
      h' !! r = Some (Plain props) ∧
      props !! "error_uri" = Some (JsString "").
Proof.
  intros (r & h' & props & Hrun & Hr & Huri).
  unfold new_condition in Hrun. rewrite serialize_run in Hrun.
  injection Hrun as <- <-.
  change (Some (Plain (response_of
            (instance_of (Std InvalidRequestError) (call_args "m" (Some "")))))
          = Some (Plain props)) in Hr.
  injection Hr as <-.
  rewrite response_of_uri in Huri. discriminate Huri.
Qed.

(** C5, amended: for every condition, standard or custom, the serialized
    object has an [error_uri] key exactly when a non-empty uri was supplied
    at construction, and then its value is that uri; when the uri was
    omitted, or supplied as the empty string, the key is absent. *)
Theorem error_uri_iff_nonempty_supplied
    (k : Condition) (m : string) (u : option string) (h : list Obj) :
  ∃ r h' props,
    (new_condition k m u ≫= toResponseObject) h = Some (r, h') ∧
    h' !! r = Some (Plain props) ∧
    props !! "error_uri" = match u with
                           | None => None
                           | Some EmptyString => None
                           | Some s => Some (JsString s)
                           end.
Proof.
  destruct (new_condition_run k m u h) as (e & Hnew & _ & _ & Huri).
  eexists _, _, _.
  split.
  { rewrite (bind_run _ _ _ _ _ Hnew).
    apply (toResponseObject_run _ _ _ (lookup_fresh h _)). }
  split; [apply lookup_fresh |].
  rewrite response_of_uri, Huri. by destruct u as [[|]|].
Qed.

(** C8: building a condition, standard or custom, from a string message
    (and optional uri) succeeds on every heap, serializing it succeeds, and
    the object returned is a well-formed response: a string [error], a
    string [error_description], an optional string [error_uri], no other
    key. *)
Theorem construction_and_serialization_total
    (k : Condition) (m : string) (u : option string) (h : list Obj) :
  ∃ e h0 r h1 props,
    new_condition k m u h = Some (e, h0) ∧
    toResponseObject e h0 = Some (r, h1) ∧
    h1 !! r = Some (Plain props) ∧
    well_formed_response props = true.
Proof.
  destruct (new_condition_run k m u h) as (e & Hnew & Hcode & _ & _).
  eexists _, _, _, _, _.
  split; [exact Hnew |].
  split; [apply (toResponseObject_run _ _ _ (lookup_fresh h _)) |].
  split; [apply lookup_fresh |].
  destruct k; by eapply response_of_well_formed.
Qed.

(** C9: the operations do not change the instance.  On a heap where
    [this] is an error instance [e], reading [errorCode] returns the heap as
    it was; [toResponseObject] returns a new reference and a heap in which
    every object that existed, [this] included, is what it was; calling
    both again gives the same code and an object with the same properties as
    the first response, which is itself unchanged. *)
Theorem operations_do_not_mutate
    (h : list Obj) (this : nat) (e : ErrorObj) :
  h !! this = Some (ErrorInst e) →
  ∃ v r1 h1 r2 h2 props,
    errorCode this h = Some (v, h) ∧
    toResponseObject this h = Some (r1, h1) ∧
    h !! r1 = None ∧
    (∀ l o, h !! l = Some o → h1 !! l = Some o) ∧
    h1 !! this = Some (ErrorInst e) ∧
    h1 !! r1 = Some (Plain props) ∧
    errorCode this h1 = Some (v, h1) ∧
    toResponseObject this h1 = Some (r2, h2) ∧
    (∀ l o, h1 !! l = Some o → h2 !! l = Some o) ∧
    h2 !! this = Some (ErrorInst e) ∧
    h2 !! r1 = Some (Plain props) ∧
    h2 !! r2 = Some (Plain props).
Proof.
  intros Hthis.
  pose proof (lookup_old h (Plain (response_of e)) _ _ Hthis) as Hthis1.
  eexists _, _, _, _, _, _.
  split; [by apply errorCode_run |].
  split; [by apply toResponseObject_run |].
  split; [by apply lookup_ge_None |].
  split; [intros l o; apply lookup_old |].
  split; [exact Hthis1 |].
  split; [apply lookup_fresh |].
  split; [by apply errorCode_run |].
  split; [by apply toResponseObject_run |].
  split; [intros l o; apply lookup_old |].
  split; [by apply lookup_old |].
  split; [apply lookup_old, lookup_fresh |].
  apply lookup_fresh.
Qed.

Lemma operations_do_not_mutate_witness :
  [ErrorInst expired_grant] !! 0 = Some (ErrorInst expired_grant) ∧
  ∃ v r1 h1 r2 h2 props,
    errorCode 0 [ErrorInst expired_grant] = Some (v, [ErrorInst expired_grant]) ∧
    toResponseObject 0 [ErrorInst expired_grant] = Some (r1, h1) ∧
    [ErrorInst expired_grant] !! r1 = None ∧
    (∀ l o, [ErrorInst expired_grant] !! l = Some o → h1 !! l = Some o) ∧
    h1 !! 0 = Some (ErrorInst expired_grant) ∧
    h1 !! r1 = Some (Plain props) ∧
    errorCode 0 h1 = Some (v, h1) ∧
    toResponseObject 0 h1 = Some (r2, h2) ∧
    (∀ l o, h1 !! l = Some o → h2 !! l = Some o) ∧
    h2 !! 0 = Some (ErrorInst expired_grant) ∧
    h2 !! r1 = Some (Plain props) ∧
    h2 !! r2 = Some (Plain props).
Proof.
  split; [reflexivity |].
  apply (operations_do_not_mutate [ErrorInst expired_grant] 0 expired_grant).
  reflexivity.
Defined.

(** * Further properties of the code *)

(** An object with the three properties [toResponseObject] would write for
    [e], and no other, is the object it returns. *)
Lemma response_of_eq_props e (props : gmap string JsVal) :
  props !! "error" = Some (code_of e) →
  props !! "error_description" = Some (JsString (message e)) →
  props !! "error_uri" = (if truthy (errorUri e) then Some (errorUri e) else None) →
  dom props ⊆ response_keys →
  response_of e = props.
Proof.
  intros He Hd Hu Hdom. apply map_eq. intros k.
  destruct (decide (k = "error")) as [-> | ?];
    [by rewrite response_of_error |].
  destruct (decide (k = "error_description")) as [-> | ?];
    [by rewrite response_of_description |].
  destruct (decide (k = "error_uri")) as [-> | ?];
    [by rewrite response_of_uri |].
  transitivity (@None JsVal).
  - apply not_elem_of_dom. intros Hk%(response_of_dom e).
    set_unfold. tauto.
  - symmetry. apply not_elem_of_dom. intros Hk%Hdom.
    unfold response_keys in Hk. set_unfold. tauto.
Qed.

Lemma class_args_instance C c m u :
  instance_of C (class_args C c m u)
  = mkErrorObj C (class_name C) m (from_option JsString JsUndefined u)
      (match C with
       | CustomOAuthError => JsString c
       | _ => JsUndefined
       end).
Proof. by destruct C, u. Qed.

(** X1: [new C(...)], for any class and any argument list, returns a
    reference that was not in use, adds exactly one object to the heap, an
    error instance, and leaves every object that existed as it was: the
    constructors write only to the instance they create. *)
Theorem construct_allocates_one_instance
    (C : Class) (args : list JsVal) (h : list Obj) :
  ∃ this h' e,
    construct C args h = Some (this, h') ∧
    h !! this = None ∧
    h' !! this = Some (ErrorInst e) ∧
    List.length h' = S (List.length h) ∧
    (∀ l o, h !! l = Some o → h' !! l = Some o).
Proof.
  eexists _, _, _.
  split; [apply construct_run |].
  split; [by apply lookup_ge_None |].
  split; [apply lookup_fresh |].
  split; [by rewrite length_app, Nat.add_1_r |].
  intros l o. apply lookup_old.
Qed.

(** X2: after a well-typed construction of any class (the base, one of
    the sixteen subclasses, the custom class) the instance has [name] equal
    to the name of its class, not ["Error"]; [message] is the message given;
    [errorUri] is the uri as given, the empty string included, or
    [undefined] when omitted; [customErrorCode] is set for the custom class
    only. *)
Theorem constructed_instance_fields
    (C : Class) (c m : string) (u : option string) (h : list Obj) :
  ∃ this h' e,
    construct C (class_args C c m u) h = Some (this, h') ∧
    h' !! this = Some (ErrorInst e) ∧
    constructor_ e = C ∧
    name e = class_name C ∧
    name e ≠ "Error" ∧
    message e = m ∧
    errorUri e = from_option JsString JsUndefined u ∧
    customErrorCode e = match C with
                        | CustomOAuthError => JsString c
                        | _ => JsUndefined
                        end.
Proof.
  eexists _, _, _.
  split; [apply construct_run |].
  split; [apply lookup_fresh |].
  rewrite class_args_instance. simpl.
  repeat split. by destruct C as [|[]|].
Qed.

(** X3: the object [toResponseObject] returns is not shared.  Assigning
    to any property of a returned response (an assignment to ["__proto__"]
    leaves the object as it is) changes neither the instance nor what a
    later call returns: the later call gives another reference, whose object
    has the properties the first one had before the assignment. *)
Theorem responses_are_independent
    (h : list Obj) (this : nat) (e : ErrorObj) (k : string) (v : JsVal) :
  h !! this = Some (ErrorInst e) →
  ∃ r1 h1 props h1' r2 h2,
    toResponseObject this h = Some (r1, h1) ∧
    h1 !! r1 = Some (Plain props) ∧
    set_prop r1 k v h1 = Some (tt, h1') ∧
    h1' !! r1 = Some (Plain (assign_prop k v props)) ∧
    h1' !! this = Some (ErrorInst e) ∧
    toResponseObject this h1' = Some (r2, h2) ∧
    r1 ≠ r2 ∧
    h2 !! r2 = Some (Plain props) ∧
    h2 !! r1 = Some (Plain (assign_prop k v props)) ∧
    h2 !! this = Some (ErrorInst e).
Proof.
  intros Hthis.
  pose proof (lookup_old h (Plain (assign_prop k v (response_of e))) _ _ Hthis)
    as Hthis1.
  eexists _, _, _, _, _, _.
  split; [by apply toResponseObject_run |].
  split; [apply lookup_fresh |].
  split; [apply set_prop_fresh |].
  split; [apply lookup_fresh |].
  split; [exact Hthis1 |].
  split; [by apply toResponseObject_run |].
  split; [rewrite length_app; simpl; lia |].
  split; [apply lookup_fresh |].
  split; [apply lookup_old, lookup_fresh |].
  by apply lookup_old.
Qed.

Lemma responses_are_independent_witness :
  [ErrorInst expired_grant] !! 0 = Some (ErrorInst expired_grant) ∧
  ∃ r1 h1 props h1' r2 h2,
    toResponseObject 0 [ErrorInst expired_grant] = Some (r1, h1) ∧
    h1 !! r1 = Some (Plain props) ∧
    set_prop r1 "error" (JsString "tampered") h1 = Some (tt, h1') ∧
    h1' !! r1 = Some (Plain (assign_prop "error" (JsString "tampered") props)) ∧
    h1' !! 0 = Some (ErrorInst expired_grant) ∧
    toResponseObject 0 h1' = Some (r2, h2) ∧
    r1 ≠ r2 ∧
    h2 !! r2 = Some (Plain props) ∧
    h2 !! r1 = Some (Plain (assign_prop "error" (JsString "tampered") props)) ∧
    h2 !! 0 = Some (ErrorInst expired_grant).
Proof.
  split; [reflexivity |].
  apply (responses_are_independent [ErrorInst expired_grant] 0 expired_grant
           "error" (JsString "tampered")).
  reflexivity.
Defined.

(** Constructing from the three fields of an incoming object and
    serializing, for any class whose instances read [c] as their code. *)
Lemma wire_instance_response (props : gmap string JsVal) (e : ErrorObj)
    (c d : string) (u : option string) :
  props !! "error" = Some (JsString c) →
  props !! "error_description" = Some (JsString d) →
  props !! "error_uri" = JsString <$> u →
  dom props ⊆ response_keys →
  code_of e = JsString c →
  message e = Error_message (property props "error_description") →
  errorUri e = property props "error_uri" →
  response_of e = if decide (u = Some "") then delete "error_uri" props else props.
Proof.
  intros He Hd Hu Hdom Hcode Hmsg Huri.
  unfold property in Hmsg, Huri. rewrite Hd in Hmsg. rewrite Hu in Huri.
  simpl in Hmsg.
  apply response_of_eq_props.
  - rewrite Hcode. case_decide; [by rewrite lookup_delete_ne |]. done.
  - rewrite Hmsg. case_decide; [by rewrite lookup_delete_ne |]. done.
  - rewrite Huri. case_decide as Hempty.
    + subst u. by rewrite lookup_delete_eq.
    + rewrite Hu. by destruct u as [[|] |].
  - case_decide; [| done]. rewrite dom_delete_L. by apply subseteq_difference_l.
Qed.

(** X4: decoding then encoding is the identity on well-formed incoming
    objects.  For an object whose [error] is the code of a standard variant,
    with a string [error_description], an [error_uri] that is absent or a
    non-empty string, and no other key: the table lookup hits, and the class
    found, constructed from the object's fields and serialized, gives an
    object with exactly the same properties. *)
Theorem wire_roundtrip_standard
    (props : gmap string JsVal) (V : StandardVariant) (d : string)
    (u : option string) (h : list Obj) :
  props !! "error" = Some (JsString (variant_errorCode V)) →
  props !! "error_description" = Some (JsString d) →
  props !! "error_uri" = JsString <$> u →
  u ≠ Some "" →
  dom props ⊆ response_keys →
  ∃ C e h1 r h2,
    OAUTH_ERRORS !! to_property_key (property props "error") = Some C ∧
    construct C [property props "error_description"; property props "error_uri"] h
    = Some (e, h1) ∧
    toResponseObject e h1 = Some (r, h2) ∧
    h2 !! r = Some (Plain props).
Proof.
  intros He Hd Hu Hne Hdom.
  eexists _, _, _, _, _.
  split.
  { unfold property. rewrite He. apply OAUTH_ERRORS_hit. }
  split; [apply construct_run |].
  split; [apply (toResponseObject_run _ _ _ (lookup_fresh h _)) |].
  rewrite lookup_fresh. do 2 f_equal.
  erewrite (wire_instance_response props _ _ d u); try done.
  by rewrite decide_False.
Qed.

Lemma wire_roundtrip_standard_witness :
  expired_grant_wire !! "error" = Some (JsString (variant_errorCode InvalidGrantError)) ∧
  expired_grant_wire !! "error_description" = Some (JsString "refresh token expired") ∧
  expired_grant_wire !! "error_uri" = JsString <$> None ∧
  None ≠ Some "" ∧
  dom expired_grant_wire ⊆ response_keys ∧
  ∃ C e h1 r h2,
    OAUTH_ERRORS !! to_property_key (property expired_grant_wire "error") = Some C ∧
    construct C [property expired_grant_wire "error_description";
                 property expired_grant_wire "error_uri"] []
    = Some (e, h1) ∧
    toResponseObject e h1 = Some (r, h2) ∧
    h2 !! r = Some (Plain expired_grant_wire).
Proof.
  assert (dom expired_grant_wire ⊆ response_keys) as Hdom.
  { apply (bool_decide_unpack _). vm_compute. exact I. }
  assert (@None string ≠ Some "") as Hne by discriminate.
  split; [reflexivity |]. split; [reflexivity |]. split; [reflexivity |].
  split; [exact Hne |]. split; [exact Hdom |].
  exact (wire_roundtrip_standard expired_grant_wire InvalidGrantError
           "refresh token expired" None [] eq_refl eq_refl eq_refl Hne Hdom).
Defined.

(** X5: an empty [error_uri] does not survive decoding and encoding.  For
    an incoming object as in X4 but with [error_uri: ""], the class found,
    constructed from the object's fields and serialized, gives the object
    without its [error_uri] key, which is a different object. *)
Theorem wire_empty_uri_is_dropped
    (props : gmap string JsVal) (V : StandardVariant) (d : string)
    (h : list Obj) :
  props !! "error" = Some (JsString (variant_errorCode V)) →
  props !! "error_description" = Some (JsString d) →
  props !! "error_uri" = Some (JsString "") →
  dom props ⊆ response_keys →
  ∃ C e h1 r h2,
    OAUTH_ERRORS !! to_property_key (property props "error") = Some C ∧
    construct C [property props "error_description"; property props "error_uri"] h
    = Some (e, h1) ∧
    toResponseObject e h1 = Some (r, h2) ∧
    h2 !! r = Some (Plain (delete "error_uri" props)) ∧
    delete "error_uri" props ≠ props.
Proof.
  intros He Hd Hu Hdom.
  eexists _, _, _, _, _.
  split.
  { unfold property. rewrite He. apply OAUTH_ERRORS_hit. }
  split; [apply construct_run |].
  split; [apply (toResponseObject_run _ _ _ (lookup_fresh h _)) |].
  split.
  - rewrite lookup_fresh. do 2 f_equal.
    erewrite (wire_instance_response props _ _ d (Some "")); try done.
  - intros Heq. apply (f_equal (.!! "error_uri")) in Heq.
    rewrite lookup_delete_eq, Hu in Heq. discriminate Heq.
Qed.

Lemma wire_empty_uri_is_dropped_witness :
  empty_uri_wire !! "error" = Some (JsString (variant_errorCode InvalidGrantError)) ∧
  empty_uri_wire !! "error_description" = Some (JsString "refresh token expired") ∧
  empty_uri_wire !! "error_uri" = Some (JsString "") ∧
  dom empty_uri_wire ⊆ response_keys ∧
  ∃ C e h1 r h2,
    OAUTH_ERRORS !! to_property_key (property empty_uri_wire "error") = Some C ∧
    construct C [property empty_uri_wire "error_description";
                 property empty_uri_wire "error_uri"] []
    = Some (e, h1) ∧
    toResponseObject e h1 = Some (r, h2) ∧
    h2 !! r = Some (Plain (delete "error_uri" empty_uri_wire)) ∧
    delete "error_uri" empty_uri_wire ≠ empty_uri_wire.
Proof.
  assert (dom empty_uri_wire ⊆ response_keys) as Hdom.
  { apply (bool_decide_unpack _). vm_compute. exact I. }
  split; [reflexivity |]. split; [reflexivity |]. split; [reflexivity |].
  split; [exact Hdom |].
  exact (wire_empty_uri_is_dropped empty_uri_wire InvalidGrantError
           "refresh token expired" [] eq_refl eq_refl eq_refl Hdom).
Defined.

(** X6: an incoming object with an unregistered code.  When [error] is a
    string that is neither one of the sixteen codes nor the name of a
    property of [Object.prototype] (the other fields as in X4), reading it
    from the table gives [undefined], and a [CustomOAuthError] constructed
    from the object's [error], [error_description] and [error_uri]
    serializes to an object with exactly the same properties. *)
Theorem wire_unknown_code_custom_roundtrip
    (props : gmap string JsVal) (c d : string) (u : option string)
    (h : list Obj) :
  c ∉ variant_errorCode <$> standard_variants →
  c ∉ Object_prototype_keys →
  props !! "error" = Some (JsString c) →
  props !! "error_description" = Some (JsString d) →
  props !! "error_uri" = JsString <$> u →
  u ≠ Some "" →
  dom props ⊆ response_keys →
  OAUTH_ERRORS_get (to_property_key (property props "error")) = MUndefined ∧
  ∃ e h1 r h2,
    construct CustomOAuthError
      [property props "error"; property props "error_description";
       property props "error_uri"] h
    = Some (e, h1) ∧
    errorCode e h1 = Some (JsString c, h1) ∧
    toResponseObject e h1 = Some (r, h2) ∧
    h2 !! r = Some (Plain props).
Proof.
  intros Hc Hproto He Hd Hu Hne Hdom.
  split.
  { unfold property. rewrite He. simpl.
    rewrite OAUTH_ERRORS_get_outside by done. by rewrite bool_decide_eq_false_2. }
  eexists _, _, _, _.
  split; [apply construct_run |].
  split.
  { rewrite (errorCode_run _ _ _ (lookup_fresh h _)).
    unfold property. by rewrite He. }
  split; [apply (toResponseObject_run _ _ _ (lookup_fresh h _)) |].
  rewrite lookup_fresh. do 2 f_equal.
  erewrite (wire_instance_response props _ c d u); try done.
  - by rewrite decide_False.
  - unfold property. by rewrite He.
Qed.

Lemma wire_unknown_code_custom_roundtrip_witness :
  ("foo_bar" ∉ variant_errorCode <$> standard_variants) ∧
  ("foo_bar" ∉ Object_prototype_keys) ∧
  foo_bar_wire !! "error" = Some (JsString "foo_bar") ∧
  foo_bar_wire !! "error_description" = Some (JsString "something odd") ∧
  foo_bar_wire !! "error_uri" = JsString <$> Some "https://example.com/foo" ∧
  Some "https://example.com/foo" ≠ Some "" ∧
  dom foo_bar_wire ⊆ response_keys ∧
  OAUTH_ERRORS_get (to_property_key (property foo_bar_wire "error")) = MUndefined ∧
  ∃ e h1 r h2,
    construct CustomOAuthError
      [property foo_bar_wire "error"; property foo_bar_wire "error_description";
       property foo_bar_wire "error_uri"] []
    = Some (e, h1) ∧
    errorCode e h1 = Some (JsString "foo_bar", h1) ∧
    toResponseObject e h1 = Some (r, h2) ∧
    h2 !! r = Some (Plain foo_bar_wire).
Proof.
  assert ("foo_bar" ∉ variant_errorCode <$> standard_variants) as Hc.
  { apply (bool_decide_unpack _). vm_compute. exact I. }
  assert ("foo_bar" ∉ Object_prototype_keys) as Hproto.
  { apply (bool_decide_unpack _). vm_compute. exact I. }
  assert (dom foo_bar_wire ⊆ response_keys) as Hdom.
  { apply (bool_decide_unpack _). vm_compute. exact I. }
  assert (Some "https://example.com/foo" ≠ Some "") as Hne by discriminate.
  split; [exact Hc |]. split; [exact Hproto |].
  split; [reflexivity |]. split; [reflexivity |]. split; [reflexivity |].
  split; [exact Hne |]. split; [exact Hdom |].
  exact (wire_unknown_code_custom_roundtrip foo_bar_wire "foo_bar"
           "something odd" (Some "https://example.com/foo") []
           Hc Hproto eq_refl eq_refl eq_refl Hne Hdom).
Defined.

(** The response of a condition built from [(k, m, u)]. *)
Lemma condition_response k m u h r h1 props :
  (new_condition k m u ≫= toResponseObject) h = Some (r, h1) →
  h1 !! r = Some (Plain props) →
  props !! "error" = Some (JsString (condition_code k)) ∧
  props !! "error_description" = Some (JsString m) ∧
  props !! "error_uri" = JsString <$> effective_uri u.
Proof.
  destruct (new_condition_run k m u h) as (e & Hnew & Hcode & Hm & Hu).
  rewrite (bind_run _ _ _ _ _ Hnew).
  rewrite (toResponseObject_run _ _ _ (lookup_fresh h _)).
  intros [= <- <-]. rewrite lookup_fresh. intros [= <-].
  rewrite response_of_error, response_of_description, response_of_uri.
  rewrite Hcode, Hm, Hu. by destruct k, u as [[|] |].
Qed.

(** X7: the serialized object determines the condition up to what the
    serializer drops.  When two conditions, standard or custom, built on any
    heaps serialize to objects with the same properties, they have the same
    code and the same message, and their uris agree once an empty uri is
    counted as omitted. *)
Theorem serialization_injective
    (k k' : Condition) (m m' : string) (u u' : option string)
    (h h' h1 h1' : list Obj) (r r' : nat) (props : gmap string JsVal) :
  (new_condition k m u ≫= toResponseObject) h = Some (r, h1) →
  h1 !! r = Some (Plain props) →
  (new_condition k' m' u' ≫= toResponseObject) h' = Some (r', h1') →
  h1' !! r' = Some (Plain props) →
  condition_code k = condition_code k' ∧
  m = m' ∧
  effective_uri u = effective_uri u'.
Proof.
  intros Hrun Hr Hrun' Hr'.
  destruct (condition_response _ _ _ _ _ _ _ Hrun Hr) as (He & Hd & Hu).
  destruct (condition_response _ _ _ _ _ _ _ Hrun' Hr') as (He' & Hd' & Hu').
  rewrite He in He'. rewrite Hd in Hd'. rewrite Hu in Hu'.
  split; [congruence |]. split; [congruence |].
  destruct (effective_uri u), (effective_uri u'); simpl in Hu'; congruence.
Qed.

Lemma serialization_injective_witness :
  (new_condition (Standard InvalidGrantError) "refresh token expired" None
     ≫= toResponseObject) []
  = Some (1, [ErrorInst expired_grant; Plain expired_grant_wire]) ∧
  [ErrorInst expired_grant; Plain expired_grant_wire] !! 1
  = Some (Plain expired_grant_wire) ∧
  (new_condition (Custom "invalid_grant") "refresh token expired" (Some "")
     ≫= toResponseObject) []
  = Some (1, [ErrorInst custom_invalid_grant; Plain expired_grant_wire]) ∧
  [ErrorInst custom_invalid_grant; Plain expired_grant_wire] !! 1
  = Some (Plain expired_grant_wire) ∧
  condition_code (Standard InvalidGrantError) = condition_code (Custom "invalid_grant") ∧
  "refresh token expired" = "refresh token expired" ∧
  effective_uri None = effective_uri (Some "").
Proof.
  assert ((new_condition (Standard InvalidGrantError) "refresh token expired" None
             ≫= toResponseObject) []
          = Some (1, [ErrorInst expired_grant; Plain expired_grant_wire])) as H1
    by (vm_compute; reflexivity).
  assert ((new_condition (Custom "invalid_grant") "refresh token expired" (Some "")
             ≫= toResponseObject) []
          = Some (1, [ErrorInst custom_invalid_grant; Plain expired_grant_wire])) as H2
    by (vm_compute; reflexivity).
  split; [exact H1 |]. split; [reflexivity |].
  split; [exact H2 |]. split; [reflexivity |].
  exact (serialization_injective _ _ _ _ _ _ _ _ _ _ _ _ _
           H1 eq_refl H2 eq_refl).
Defined.

(** X8: a custom condition that uses the code of a standard variant [V]
    serializes to the same object as [V] built from the same message and
    uri, and decoding that object yields an instance of class [V], named
    after [V], not a [CustomOAuthError]. *)
Theorem custom_alias_of_standard
    (V : StandardVariant) (m : string) (u : option string) (h h' : list Obj) :
  ∃ r h1 props r' h1' C e2 h2 i,
    (new_condition (Custom (variant_errorCode V)) m u ≫= toResponseObject) h
    = Some (r, h1) ∧
    h1 !! r = Some (Plain props) ∧
    (new_condition (Standard V) m u ≫= toResponseObject) h' = Some (r', h1') ∧
    h1' !! r' = Some (Plain props) ∧
    OAUTH_ERRORS !! to_property_key (property props "error") = Some C ∧
    construct C [property props "error_description"; property props "error_uri"] h1
    = Some (e2, h2) ∧
    h2 !! e2 = Some (ErrorInst i) ∧
    constructor_ i = Std V ∧
    name i = variant_name V ∧
    name i ≠ "CustomOAuthError".
Proof.
  eexists _, _, _, _, _, _, _, _, _.
  split; [apply serialize_run |].
  split; [apply lookup_serialized |].
  split; [apply serialize_run |].
  split.
  { rewrite lookup_serialized. apply (f_equal (λ p, Some (Plain p))).
    apply response_of_ext; by destruct u. }
  split.
  { unfold property. rewrite response_of_error. apply OAUTH_ERRORS_hit. }
  split; [apply construct_run |].
  split; [apply lookup_fresh |].
  repeat split. by destruct V.
Qed.

(** X9: decoding the serialized form of a standard condition rebuilds the
    instance.  The reconstructed instance is another object with the same
    class, name and message as the original; its [errorUri] is the
    original's, except that an empty uri comes back as [undefined]. The
    original instance is still in place. *)
Theorem standard_roundtrip_instance
    (V : StandardVariant) (m : string) (u : option string) (h : list Obj) :
  ∃ e h0 i r h1 props C e' h2 i',
    construct (Std V) (call_args m u) h = Some (e, h0) ∧
    h0 !! e = Some (ErrorInst i) ∧
    toResponseObject e h0 = Some (r, h1) ∧
    h1 !! r = Some (Plain props) ∧
    OAUTH_ERRORS !! to_property_key (property props "error") = Some C ∧
    construct C [property props "error_description"; property props "error_uri"] h1
    = Some (e', h2) ∧
    h2 !! e' = Some (ErrorInst i') ∧
    h2 !! e = Some (ErrorInst i) ∧
    e ≠ e' ∧
    errorUri i = from_option JsString JsUndefined u ∧
    i' = set_errorUri (from_option JsString JsUndefined (effective_uri u)) i.
Proof.
  eexists _, _, _, _, _, _, _, _, _, _.
  split; [apply construct_run |].
  split; [apply lookup_fresh |].
  split; [apply (toResponseObject_run _ _ _ (lookup_fresh h _)) |].
  split; [apply lookup_fresh |].
  split.
  { unfold property. rewrite response_of_error. apply OAUTH_ERRORS_hit. }
  split; [apply construct_run |].
  split; [apply lookup_fresh |].
  split; [do 2 apply lookup_old; apply lookup_fresh |].
  split; [rewrite !length_app; simpl; lia |].
  split; [by destruct u |].
  unfold property. rewrite response_of_description, response_of_uri.
  by destruct u as [[|] |].
Qed.
